(** * Verification of the strings-utils library (src/src/lib.rs)

    Shallow embedding of [to_string], [to_hex_string] and
    [to_hex_string_fixed].

    Data model:
    - a [U256] value is an [N]; the library only applies [is_zero], [% c]
      and [/ c] with [c] in {10, 16}, which never overflow, so the range
      bound [v < 2^256] is never needed by the operations; every theorem
      below is proved for all [N], hence in particular for the U256 range;
    - a [u8] is an [N] in [0, 256), a [usize] length is a [nat];
    - a Rust [String] is modelled by its UTF-8 bytes ([list N]); its [len]
      is the byte length, as in Rust;
    - a panic ([expect], [to::<u64>] out of range, [u8] overflow in a debug
      build) is [None]; a returned value is [Some]. *)

From Stdlib Require Import Ascii String Arith NArith List Lia Bool.
From Stdlib Require Import Recdef.
Import ListNotations.

Open Scope N_scope.

(** ** A small panic monad *)

Notation "x <- m ;; k" :=
  (match m with Some x => k | None => None end)
  (at level 61, m at next level, right associativity).

(** ** Machine operations *)

Definition U256 := N.

(** [U256::to::<u64>()]: panics when the value does not fit in 64 bits. *)
Definition to_u64 (x : U256) : option N :=
  if x <? 2 ^ 64 then Some x else None.

(** [x as u8]: truncation to the low 8 bits. *)
Definition as_u8 (x : N) : N := x mod 256.

(** [a + b] on [u8]: overflow panics (debug build). *)
Definition u8_add (a b : N) : option N :=
  if a + b <? 256 then Some (a + b) else None.

(** [a - b] on [u8]: underflow panics (debug build). *)
Definition u8_sub (a b : N) : option N :=
  if b <=? a then Some (a - b) else None.

(** Byte of an ASCII character, to write [b'0'] as [byte "0"]. *)
Definition byte (c : ascii) : N := N_of_ascii c.

(** UTF-8 bytes of an ASCII string literal. *)
Definition bytes (s : string) : list N := map N_of_ascii (list_ascii_of_string s).

(** ** UTF-8 validation ([String::from_utf8])

    The well-formed byte sequences of the Unicode standard (Table 3-7),
    which is what [core::str::from_utf8] accepts. *)

Definition in_range (lo hi b : N) : bool := (lo <=? b) && (b <=? hi).
Definition cont (b : N) : bool := in_range 128 191 b.

Fixpoint utf8_valid (bs : list N) : bool :=
  match bs with
  | [] => true
  | b :: rest =>
      if b <? 128 then utf8_valid rest
      else if in_range 194 223 b then
        match rest with c1 :: r => cont c1 && utf8_valid r | _ => false end
      else if b =? 224 then
        match rest with
        | c1 :: c2 :: r => in_range 160 191 c1 && cont c2 && utf8_valid r
        | _ => false end
      else if in_range 225 236 b || in_range 238 239 b then
        match rest with
        | c1 :: c2 :: r => cont c1 && cont c2 && utf8_valid r
        | _ => false end
      else if b =? 237 then
        match rest with
        | c1 :: c2 :: r => in_range 128 159 c1 && cont c2 && utf8_valid r
        | _ => false end
      else if b =? 240 then
        match rest with
        | c1 :: c2 :: c3 :: r =>
            in_range 144 191 c1 && cont c2 && cont c3 && utf8_valid r
        | _ => false end
      else if in_range 241 243 b then
        match rest with
        | c1 :: c2 :: c3 :: r => cont c1 && cont c2 && cont c3 && utf8_valid r
        | _ => false end
      else if b =? 244 then
        match rest with
        | c1 :: c2 :: c3 :: r =>
            in_range 128 143 c1 && cont c2 && cont c3 && utf8_valid r
        | _ => false end
      else false
  end.

(** [String::from_utf8(bytes).expect(..)]: the string, or a panic. *)
Definition from_utf8_expect (bs : list N) : option (list N) :=
  if utf8_valid bs then Some bs else None.

(** Number of [char]s of a valid UTF-8 string: its non-continuation bytes. *)
Definition char_count (s : list N) : nat :=
  List.length (filter (fun b => negb (cont b)) s).

(** [format!("{:0>width$}", s, width = w)]: right-aligned in [w] chars,
    filled on the left with ['0']. *)
Definition fmt_zero_right_align (w : nat) (s : list N) : list N :=
  repeat (byte "0") (w - char_count s) ++ s.

(** [format!("0x{}", s)]. *)
Definition fmt_0x (s : list N) : list N := bytes "0x" ++ s.

(** ** Termination measure of the digit loops

    Each iteration divides a non-zero value by 10 or 16: its bit length
    strictly decreases. *)

Lemma size_nat_monotone (a b : N) : a <= b -> (N.size_nat a <= N.size_nat b)%nat.
Proof.
  destruct a as [|p], b as [|q]; simpl; intros H; try lia.
  assert (Hpq : (p <= q)%positive) by exact H.
  apply Pos.lt_eq_cases in Hpq as [Hlt| ->].
  - apply Pos.size_nat_monotone; exact Hlt.
  - lia.
Qed.

Lemma size_nat_div_lt (v k : N) : 2 <= k -> v <> 0 ->
  (N.size_nat (v / k) < N.size_nat v)%nat.
Proof.
  intros Hk Hv.
  assert (Hd : v / k <= v / 2) by (apply N.div_le_compat_l; lia).
  apply size_nat_monotone in Hd.
  enough (N.size_nat (v / 2) < N.size_nat v)%nat by lia.
  rewrite <- N.div2_div.
  destruct v as [|p]; [lia|].
  destruct p; simpl; lia.
Qed.

(** ** [to_string] (lib.rs lines 29-46) *)

(** The [while !v.is_zero()] loop of lines 37-41; [digits.push] appends. *)
Function to_string_loop (v : U256) (digits : list N) {measure N.size_nat v}
  : option (list N) :=
  if N.eqb v 0 then Some digits
  else
    d <- to_u64 (v mod 10);;
    let digit := as_u8 d in
    c <- u8_add (byte "0") digit;;
    to_string_loop (v / 10) (digits ++ [c]).
Proof.
  intros; apply size_nat_div_lt; [lia | apply N.eqb_neq; assumption].
Defined.

Definition to_string (value : U256) : option (list N) :=
  if N.eqb value 0 then Some (bytes "0")
  else
    digits <- to_string_loop value [];;
    from_utf8_expect (rev digits).

(** ** [to_hex_string] (lib.rs lines 70-93) *)

(** Lines 80-84: [if digit < 10 { b'0' + digit } else { b'a' + (digit - 10) }]. *)
Definition hex_char_of (digit : N) : option N :=
  if digit <? 10 then u8_add (byte "0") digit
  else
    d <- u8_sub digit 10;;
    u8_add (byte "a") d.

(** The [while !v.is_zero()] loop of lines 78-87; [to_hex_string_fixed]
    repeats the same loop verbatim at lines 127-136. *)
Function hex_loop (v : U256) (hex_chars : list N) {measure N.size_nat v}
  : option (list N) :=
  if N.eqb v 0 then Some hex_chars
  else
    d <- to_u64 (v mod 16);;
    let digit := as_u8 d in
    hex_char <- hex_char_of digit;;
    hex_loop (v / 16) (hex_chars ++ [hex_char]).
Proof.
  intros; apply size_nat_div_lt; [lia | apply N.eqb_neq; assumption].
Defined.

Definition to_hex_string (value : U256) : option (list N) :=
  if N.eqb value 0 then Some (bytes "0x0")
  else
    hex_chars <- hex_loop value [];;
    hex_string <- from_utf8_expect (rev hex_chars);;
    Some (fmt_0x hex_string).

(** ** [to_hex_string_fixed] (lib.rs lines 119-150) *)

Definition to_hex_string_fixed (value : U256) (length : nat) : option (list N) :=
  if N.eqb value 0 then Some (fmt_0x (repeat (byte "0") length))
  else
    hex_chars <- hex_loop value [];;
    hex_string <- from_utf8_expect (rev hex_chars);;
    let padded :=
      if Nat.ltb (List.length hex_string) length
      then fmt_zero_right_align length hex_string
      else hex_string in
    Some (fmt_0x padded).

(** ** Reading back a numeral *)

(** Value of a decimal digit character. *)
Definition dec_val (c : N) : N := c - byte "0".

(** Value of a lowercase hexadecimal digit character. *)
Definition hex_val (c : N) : N :=
  if c <? byte "a" then c - byte "0" else c - byte "a" + 10.

Definition is_dec_char (c : N) : bool := in_range (byte "0") (byte "9") c.

Definition is_hex_char (c : N) : bool :=
  in_range (byte "0") (byte "9") c || in_range (byte "a") (byte "f") c.

(** Most-significant-digit-first evaluation of a numeral. *)
Definition parse_base (base : N) (val : N -> N) (s : list N) : N :=
  fold_left (fun acc c => acc * base + val c) s 0.

Definition parse_dec (s : list N) : N := parse_base 10 dec_val s.
Definition parse_hex (s : list N) : N := parse_base 16 hex_val s.

(** Byte-wise lexicographic order, the order of Rust's [str] comparison. *)
Fixpoint lex_lt (s1 s2 : list N) : Prop :=
  match s1, s2 with
  | [], [] => False
  | [], _ :: _ => True
  | _ :: _, [] => False
  | c1 :: r1, c2 :: r2 => c1 < c2 \/ (c1 = c2 /\ lex_lt r1 r2)
  end.

(** The regular expression [^0$|^[1-9a-f][0-9a-f]*$]. *)
Definition min_hex_numeral (s : list N) : Prop :=
  s = bytes "0" \/
  exists c t, s = c :: t /\ is_hex_char c = true /\ c <> byte "0" /\
              Forall (fun x => is_hex_char x = true) t.

(** ** The demo contract (src/examples/contract.rs)

    [StringsDemo::value_to_decimal_string], [value_to_hex_string] and
    [value_to_hex_string_fixed] (lines 19-44) only forward to the library
    functions; the two methods below compose them. *)

(** The byte ['\n']; the [\] line continuations of the format string of
    [multi_format_display] drop the following newline and indentation. *)
Definition newline : N := 10.

(** [StringsDemo::generate_token_uri] (lines 54-58). *)
Definition generate_token_uri (token_id : U256) : option (list N) :=
  decimal_id <- to_string token_id;;
  hex_id <- to_hex_string_fixed token_id 8;;
  Some (bytes "https://api.example.com/token/" ++ decimal_id ++
        bytes "/metadata?hex=" ++ hex_id).

(** [StringsDemo::multi_format_display] (lines 68-82). *)
Definition multi_format_display (value : U256) : option (list N) :=
  decimal <- to_string value;;
  hex <- to_hex_string value;;
  hex_fixed_8 <- to_hex_string_fixed value 8;;
  hex_fixed_16 <- to_hex_string_fixed value 16;;
  Some (bytes "Value representations:" ++ [newline] ++
        bytes "Decimal: " ++ decimal ++ [newline] ++
        bytes "Hex: " ++ hex ++ [newline] ++
        bytes "Hex (8 chars): " ++ hex_fixed_8 ++ [newline] ++
        bytes "Hex (16 chars): " ++ hex_fixed_16).

(** ** Readers for the composed strings *)

(** The rest of [s] after the prefix [p], if [s] starts with [p]. *)
Fixpoint strip_prefix (p s : list N) : option (list N) :=
  match p, s with
  | [], _ => Some s
  | a :: p', b :: s' => if a =? b then strip_prefix p' s' else None
  | _ :: _, [] => None
  end.

(** [s] cut before its first occurrence of [sep]. *)
Fixpoint split_first (sep : N) (s : list N) : list N * list N :=
  match s with
  | [] => ([], [])
  | c :: r =>
      if c =? sep then ([], s)
      else let (a, b) := split_first sep r in (c :: a, b)
  end.

(** [s] split at every occurrence of [sep]. *)
Fixpoint split_on (sep : N) (s : list N) : list (list N) :=
  match s with
  | [] => [[]]
  | c :: r =>
      if c =? sep then [] :: split_on sep r
      else match split_on sep r with
           | [] => [[c]]
           | l :: ls => (c :: l) :: ls
           end
  end.

(** Reads back the decimal and the hexadecimal token id of a token URI. *)
Definition read_token_uri (uri : list N) : option (N * N) :=
  rest <- strip_prefix (bytes "https://api.example.com/token/") uri;;
  let (dec, tail) := split_first (byte "/") rest in
  hex <- strip_prefix (bytes "/metadata?hex=0x") tail;;
  if negb (List.length dec =? 0)%nat && forallb is_dec_char dec &&
     forallb is_hex_char hex
  then Some (parse_dec dec, parse_hex hex)
  else None.

(** * Properties *)

(** ** Numerals in a base *)

Section Numeral.

Variable base : N.
Variable val : N -> N.
Variable is_digit : N -> bool.

Hypothesis base_pos : 0 < base.
Hypothesis val_lt : forall c, is_digit c = true -> val c < base.
Hypothesis val_mono : forall c1 c2, is_digit c1 = true -> is_digit c2 = true ->
  val c1 < val c2 -> c1 < c2.
Hypothesis val_inj : forall c1 c2, is_digit c1 = true -> is_digit c2 = true ->
  val c1 = val c2 -> c1 = c2.

Let step := fun acc c => acc * base + val c.

Lemma parse_base_acc (s : list N) (a : N) :
  fold_left step s a = a * base ^ N.of_nat (length s) + fold_left step s 0.
Proof.
  revert a; induction s as [|c s IH]; intros a; cbn [fold_left List.length].
  - rewrite N.pow_0_r; lia.
  - rewrite (IH (step a c)), (IH (step 0 c)); unfold step.
    rewrite Nat2N.inj_succ, N.pow_succ_r'. lia.
Qed.

Lemma parse_base_snoc (s : list N) (c : N) :
  parse_base base val (s ++ [c]) = parse_base base val s * base + val c.
Proof. unfold parse_base; rewrite fold_left_app; reflexivity. Qed.

Lemma parse_base_cons (c : N) (s : list N) :
  parse_base base val (c :: s) =
  val c * base ^ N.of_nat (length s) + parse_base base val s.
Proof.
  unfold parse_base; cbn [fold_left List.length]; fold step.
  rewrite parse_base_acc; lia.
Qed.

Lemma parse_base_bound (s : list N) :
  Forall (fun c => is_digit c = true) s ->
  parse_base base val s < base ^ N.of_nat (length s).
Proof.
  induction s as [|c s IH]; intros Hs.
  - unfold parse_base; simpl; lia.
  - inversion Hs as [|? ? Hc Hs']; subst.
    rewrite parse_base_cons; simpl length; rewrite Nat2N.inj_succ, N.pow_succ_r'.
    specialize (IH Hs'); specialize (val_lt c Hc).
    remember (base ^ N.of_nat (length s)) as B.
    assert (val c + 1 <= base) by lia.
    nia.
Qed.

Lemma parse_base_lex (s1 s2 : list N) :
  Forall (fun c => is_digit c = true) s1 ->
  Forall (fun c => is_digit c = true) s2 ->
  length s1 = length s2 ->
  parse_base base val s1 < parse_base base val s2 -> lex_lt s1 s2.
Proof.
  revert s2; induction s1 as [|c1 r1 IH]; intros s2 H1 H2 Hlen Hlt;
    destruct s2 as [|c2 r2]; simpl in Hlen; try discriminate.
  (* the case [[] []] is refuted by [0 < 0] *)
  - inversion H1 as [|? ? Hc1 Hr1]; inversion H2 as [|? ? Hc2 Hr2]; subst.
    injection Hlen as Hlen.
    rewrite !parse_base_cons in Hlt; rewrite <- Hlen in Hlt.
    pose proof (parse_base_bound r1 Hr1) as B1.
    pose proof (parse_base_bound r2 Hr2) as B2.
    rewrite <- Hlen in B2.
    remember (base ^ N.of_nat (length r1)) as B.
    simpl.
    destruct (N.lt_trichotomy (val c1) (val c2)) as [Hv|[Hv|Hv]].
    + left; apply val_mono; assumption.
    + right; split; [apply val_inj; assumption|].
      apply IH; [assumption|assumption|assumption|].
      rewrite Hv in Hlt; lia.
    + exfalso.
      assert (val c2 + 1 <= val c1) by lia.
      nia.
Qed.

End Numeral.

(** ** Digit characters *)

Ltac bool_to_arith :=
  repeat match goal with
  | H : _ || _ = true |- _ => apply orb_true_iff in H as [H|H]
  | H : _ && _ = true |- _ => apply andb_true_iff in H as [? ?]
  | H : (_ <=? _) = true |- _ => apply N.leb_le in H
  | H : (_ <? _) = true |- _ => apply N.ltb_lt in H
  | H : (_ <? _) = false |- _ => apply N.ltb_ge in H
  | |- _ && _ = true => apply andb_true_iff; split
  | |- (_ <=? _) = true => apply N.leb_le
  end.

Ltac char_arith :=
  unfold is_dec_char, is_hex_char, in_range, dec_val, hex_val, cont, byte in *;
  cbn [N_of_ascii N_of_digits] in *;
  bool_to_arith;
  repeat match goal with
  | |- context [?a <? ?b] => destruct (N.ltb_spec a b)
  | H : context [?a <? ?b] |- _ => destruct (N.ltb_spec a b)
  end;
  try lia.

Lemma dec_val_lt c : is_dec_char c = true -> dec_val c < 10.
Proof. intros H; char_arith. Qed.

Lemma dec_val_mono c1 c2 : is_dec_char c1 = true -> is_dec_char c2 = true ->
  dec_val c1 < dec_val c2 -> c1 < c2.
Proof. intros H1 H2 H; char_arith. Qed.

Lemma dec_val_inj c1 c2 : is_dec_char c1 = true -> is_dec_char c2 = true ->
  dec_val c1 = dec_val c2 -> c1 = c2.
Proof. intros H1 H2 H; char_arith. Qed.

Lemma hex_val_lt c : is_hex_char c = true -> hex_val c < 16.
Proof. intros H; char_arith. Qed.

Lemma hex_val_mono c1 c2 : is_hex_char c1 = true -> is_hex_char c2 = true ->
  hex_val c1 < hex_val c2 -> c1 < c2.
Proof. intros H1 H2 H; char_arith. Qed.

Lemma hex_val_inj c1 c2 : is_hex_char c1 = true -> is_hex_char c2 = true ->
  hex_val c1 = hex_val c2 -> c1 = c2.
Proof. intros H1 H2 H; char_arith. Qed.

Lemma dec_char_is_hex c : is_dec_char c = true -> is_hex_char c = true.
Proof. unfold is_dec_char, is_hex_char; intros ->; reflexivity. Qed.

Lemma hex_char_ascii c : is_hex_char c = true -> c < 128.
Proof. intros H; char_arith. Qed.

Lemma is_hex_char_In c :
  is_hex_char c = true <-> In c (bytes "0123456789abcdef").
Proof.
  replace (bytes "0123456789abcdef")
    with [48; 49; 50; 51; 52; 53; 54; 55; 56; 57; 97; 98; 99; 100; 101; 102]
    by reflexivity.
  split.
  - intros H; char_arith;
      assert (c = 48 \/ c = 49 \/ c = 50 \/ c = 51 \/ c = 52 \/ c = 53 \/
              c = 54 \/ c = 55 \/ c = 56 \/ c = 57 \/ c = 97 \/ c = 98 \/
              c = 99 \/ c = 100 \/ c = 101 \/ c = 102) by lia;
      simpl; intuition congruence.
  - simpl; intros H;
      repeat (destruct H as [<-|H]; [reflexivity|]); contradiction.
Qed.

(** Line 39: [b'0' + digit] for a remainder [digit < 10]. *)
Lemma dec_char_spec d : d < 10 ->
  u8_add (byte "0") (as_u8 d) = Some (48 + d) /\
  is_dec_char (48 + d) = true /\ dec_val (48 + d) = d.
Proof.
  intros Hd; unfold as_u8, u8_add; rewrite N.mod_small by lia.
  destruct (N.ltb_spec (byte "0" + d) 256); char_arith.
  split; [reflexivity|]. split; [|lia]. bool_to_arith; lia.
Qed.

(** Lines 80-84 for a remainder [digit < 16]. *)
Lemma hex_char_of_spec d : d < 16 ->
  exists c, hex_char_of (as_u8 d) = Some c /\ is_hex_char c = true /\
            hex_val c = d /\ (c = byte "0" <-> d = 0).
Proof.
  intros Hd; unfold as_u8; rewrite N.mod_small by lia.
  unfold hex_char_of, u8_add, u8_sub.
  destruct (N.ltb_spec d 10).
  - exists (48 + d); destruct (N.ltb_spec (byte "0" + d) 256); char_arith.
    repeat split; try lia. apply orb_true_iff; left; bool_to_arith; lia.
  - destruct (N.leb_spec 10 d); [|lia].
    exists (97 + (d - 10)); destruct (N.ltb_spec (byte "a" + (d - 10)) 256); char_arith.
    repeat split; try lia. apply orb_true_iff; right; bool_to_arith; lia.
Qed.

(** ** The digit loops *)

Lemma to_u64_small x : x < 16 -> to_u64 x = Some x.
Proof.
  intros H; unfold to_u64.
  destruct (N.ltb_spec x (2 ^ 64)); [reflexivity|].
  exfalso; assert (2 ^ 64 = 18446744073709551616) by reflexivity; lia.
Qed.

(** The decimal loop of [to_string] pushes the digits of [v], least
    significant first: the buffer it returns is [acc] followed by the
    reverse of a decimal numeral [S] of [v] with no leading zero. *)
Lemma to_string_loop_spec v acc :
  exists S, to_string_loop v acc = Some (acc ++ rev S) /\
    Forall (fun c => is_dec_char c = true) S /\ parse_dec S = v /\
    (v = 0 -> S = []) /\ (v <> 0 -> exists c t, S = c :: t /\ c <> byte "0").
Proof.
  functional induction (to_string_loop v acc).
  - apply N.eqb_eq in e; subst v.
    exists []; repeat split; simpl; rewrite ?app_nil_r; auto; congruence.
  - apply N.eqb_neq in e.
    pose proof (N.mod_lt v 10 ltac:(lia)) as Hm.
    pose proof (N.div_mod v 10 ltac:(lia)) as Hdm.
    rewrite to_u64_small in e0 by lia; injection e0 as <-.
    destruct (dec_char_spec (v mod 10) Hm) as [Hc [Hdc Hdv]].
    rewrite Hc in e1; injection e1 as <-.
    destruct IHo as [S' [Hl [Hf [Hp [Hz Hnz]]]]].
    exists (S' ++ [48 + v mod 10]); repeat split.
    + rewrite Hl, rev_app_distr; simpl; rewrite <- app_assoc; reflexivity.
    + apply Forall_app; split; [assumption|constructor; [assumption|constructor]].
    + unfold parse_dec in *; rewrite parse_base_snoc, Hp, Hdv; lia.
    + intros; contradiction.
    + intros _; destruct (N.eq_dec (v / 10) 0) as [H0|H0].
      * rewrite (Hz H0); exists (48 + v mod 10), []; split; [reflexivity|].
        unfold byte; simpl N_of_ascii; lia.
      * destruct (Hnz H0) as [c [t [-> Hc0]]].
        exists c, (t ++ [48 + v mod 10]); split; [reflexivity|assumption].
  - exfalso; apply N.eqb_neq in e.
    rewrite to_u64_small in e0 by (pose proof (N.mod_lt v 10); lia).
    injection e0 as <-.
    rewrite (proj1 (dec_char_spec (v mod 10) ltac:(apply N.mod_lt; lia))) in e1.
    discriminate.
  - exfalso; apply N.eqb_neq in e.
    rewrite to_u64_small in e0 by (pose proof (N.mod_lt v 10); lia).
    discriminate.
Qed.

(** The hexadecimal loop shared by [to_hex_string] and
    [to_hex_string_fixed] pushes the hex digits of [v], least significant
    first. *)
Lemma hex_loop_spec v acc :
  exists S, hex_loop v acc = Some (acc ++ rev S) /\
    Forall (fun c => is_hex_char c = true) S /\ parse_hex S = v /\
    (v = 0 -> S = []) /\ (v <> 0 -> exists c t, S = c :: t /\ c <> byte "0").
Proof.
  functional induction (hex_loop v acc).
  - apply N.eqb_eq in e; subst v.
    exists []; repeat split; simpl; rewrite ?app_nil_r; auto; congruence.
  - apply N.eqb_neq in e.
    pose proof (N.mod_lt v 16 ltac:(lia)) as Hm.
    pose proof (N.div_mod v 16 ltac:(lia)) as Hdm.
    rewrite to_u64_small in e0 by lia; injection e0 as <-.
    destruct (hex_char_of_spec (v mod 16) Hm) as [c' [Hc [Hhc [Hhv Hz0]]]].
    rewrite Hc in e1; injection e1 as <-.
    destruct IHo as [S' [Hl [Hf [Hp [Hz Hnz]]]]].
    exists (S' ++ [c']); repeat split.
    + rewrite Hl, rev_app_distr; simpl; rewrite <- app_assoc; reflexivity.
    + apply Forall_app; split; [assumption|constructor; [assumption|constructor]].
    + unfold parse_hex in *; rewrite parse_base_snoc, Hp, Hhv; lia.
    + intros; contradiction.
    + intros _; destruct (N.eq_dec (v / 16) 0) as [H0|H0].
      * rewrite (Hz H0); exists c', []; split; [reflexivity|].
        rewrite Hz0; lia.
      * destruct (Hnz H0) as [c [t [-> Hc0]]].
        exists c, (t ++ [c']); split; [reflexivity|assumption].
  - exfalso; apply N.eqb_neq in e.
    pose proof (N.mod_lt v 16 ltac:(lia)) as Hm.
    rewrite to_u64_small in e0 by lia; injection e0 as <-.
    destruct (hex_char_of_spec (v mod 16) Hm) as [c' [Hc _]].
    rewrite Hc in e1; discriminate.
  - exfalso; apply N.eqb_neq in e.
    rewrite to_u64_small in e0 by (pose proof (N.mod_lt v 16); lia).
    discriminate.
Qed.

(** An ASCII byte sequence is valid UTF-8. *)
Lemma utf8_valid_ascii s : Forall (fun b => b < 128) s -> utf8_valid s = true.
Proof.
  induction 1 as [|b s Hb _ IH]; [reflexivity|].
  simpl; destruct (N.ltb_spec b 128); [exact IH|lia].
Qed.

Lemma from_utf8_hex s :
  Forall (fun c => is_hex_char c = true) s -> from_utf8_expect s = Some s.
Proof.
  intros H; unfold from_utf8_expect; rewrite utf8_valid_ascii; [reflexivity|].
  eapply Forall_impl; [|exact H]; intros c Hc; apply hex_char_ascii; exact Hc.
Qed.

Lemma char_count_hex s :
  Forall (fun c => is_hex_char c = true) s -> char_count s = List.length s.
Proof.
  unfold char_count; induction 1 as [|c s Hc _ IH]; [reflexivity|].
  simpl; replace (cont c) with false; [simpl; rewrite IH; reflexivity|].
  symmetry; unfold cont, in_range; apply hex_char_ascii in Hc.
  destruct (N.leb_spec 128 c); [lia|reflexivity].
Qed.

Lemma forall_dec_hex s :
  Forall (fun c => is_dec_char c = true) s -> Forall (fun c => is_hex_char c = true) s.
Proof. apply Forall_impl; intros c; apply dec_char_is_hex. Qed.

(** Shape of [to_string]: a decimal numeral [S] of [v]; for [v <> 0] it is
    the reversed buffer of the loop. *)
Lemma to_string_spec v :
  exists S, to_string v = Some S /\
    Forall (fun c => is_dec_char c = true) S /\ parse_dec S = v /\
    (v = 0 -> S = bytes "0") /\
    (v <> 0 -> exists c t, S = c :: t /\ c <> byte "0").
Proof.
  unfold to_string; destruct (N.eqb_spec v 0) as [->|Hv].
  - exists (bytes "0"); split; [reflexivity|].
    split; [repeat constructor|].
    split; [reflexivity|].
    split; [reflexivity|intros H; contradiction].
  - destruct (to_string_loop_spec v []) as [S [-> [Hf [Hp [_ Hnz]]]]].
    simpl; rewrite rev_involutive, from_utf8_hex by (apply forall_dec_hex; exact Hf).
    exists S; repeat split; auto; intros; contradiction.
Qed.

(** Shape of [to_hex_string]: ["0x"] and a hex numeral [S] of [v]. *)
Lemma to_hex_string_spec v :
  exists S, to_hex_string v = Some (fmt_0x S) /\
    Forall (fun c => is_hex_char c = true) S /\ parse_hex S = v /\
    (v = 0 -> S = bytes "0") /\
    (v <> 0 -> hex_loop v [] = Some (rev S) /\
               exists c t, S = c :: t /\ c <> byte "0").
Proof.
  unfold to_hex_string; destruct (N.eqb_spec v 0) as [->|Hv].
  - exists (bytes "0"); split; [reflexivity|].
    split; [repeat constructor|].
    split; [reflexivity|].
    split; [reflexivity|intros H; contradiction].
  - destruct (hex_loop_spec v []) as [S [HL [Hf [Hp [_ Hnz]]]]].
    rewrite HL; simpl; rewrite rev_involutive, from_utf8_hex by exact Hf.
    exists S; split; [reflexivity|].
    do 2 (split; [assumption|]).
    split; [intros; contradiction|].
    intros _; split; [reflexivity|auto].
Qed.

(** For a non-zero value, [to_hex_string_fixed] emits the minimal numeral
    [S] left-padded with [n - |S|] zeros (none when [|S| >= n]). *)
Lemma to_hex_string_fixed_nonzero v n S :
  v <> 0 -> hex_loop v [] = Some (rev S) ->
  Forall (fun c => is_hex_char c = true) S ->
  to_hex_string_fixed v n =
  Some (fmt_0x (repeat (byte "0") (n - List.length S) ++ S)).
Proof.
  intros Hv HL Hf; unfold to_hex_string_fixed.
  destruct (N.eqb_spec v 0) as [|_]; [contradiction|].
  rewrite HL; simpl; rewrite rev_involutive, from_utf8_hex by exact Hf.
  destruct (Nat.ltb_spec (List.length S) n).
  - unfold fmt_zero_right_align; rewrite char_count_hex by exact Hf; reflexivity.
  - replace (n - List.length S)%nat with 0%nat by lia; reflexivity.
Qed.

Lemma to_hex_string_fixed_zero n :
  to_hex_string_fixed 0 n = Some (fmt_0x (repeat (byte "0") n)).
Proof. reflexivity. Qed.

Lemma lex_lt_app_l p a b : lex_lt a b -> lex_lt (p ++ a) (p ++ b).
Proof. induction p as [|c p IH]; simpl; auto. Qed.

(** * Claims *)

(** C1: [to_string v] consists of the ASCII digits ['0']-['9'] only, has no
    leading zero unless it is exactly ["0"], and read back in base 10 it is
    [v]. *)
Theorem to_string_decimal_roundtrip v :
  exists s, to_string v = Some s /\
    Forall (fun c => is_dec_char c = true) s /\
    (s = bytes "0" \/ exists c t, s = c :: t /\ c <> byte "0") /\
    parse_dec s = v.
Proof.
  destruct (to_string_spec v) as [s [Hs [Hf [Hp [Hz Hnz]]]]].
  exists s; repeat split; auto.
  destruct (N.eq_dec v 0) as [H0|H0]; [left; auto|right; auto].
Qed.

(** C2: [to_hex_string v] is ["0x"] followed by a numeral matching
    [^0$|^[1-9a-f][0-9a-f]*$], which is ["0"] exactly when [v = 0], and read
    back in base 16 it is [v]. *)
Theorem to_hex_string_minimal_roundtrip v :
  exists r, to_hex_string v = Some (bytes "0x" ++ r) /\ min_hex_numeral r /\
    (r = bytes "0" <-> v = 0) /\ parse_hex r = v.
Proof.
  destruct (to_hex_string_spec v) as [r [Hr [Hf [Hp [Hz Hnz]]]]].
  exists r; split; [exact Hr|].
  destruct (N.eq_dec v 0) as [H0|H0].
  - rewrite (Hz H0); split; [left; reflexivity|]; split; [tauto|].
    rewrite <- Hp, (Hz H0); reflexivity.
  - destruct (Hnz H0) as [_ [c [t [-> Hc]]]].
    inversion Hf as [|? ? Hc' Ht]; subst.
    split; [right; exists c, t; auto|].
    split; [|reflexivity].
    split; [intros Heq; injection Heq as Heq _; contradiction|intros; contradiction].
Qed.

(** C3 (as stated, refuted): for [v = 0] and [n = 0] the fixed-width output
    is ["0x"], which does not end with the digits ["0"] of
    [to_hex_string 0 = "0x0"]. *)
Lemma to_hex_string_fixed_suffix_counterexample :
  ~ (forall v n, exists s r,
       to_hex_string_fixed v n = Some s /\
       to_hex_string v = Some (bytes "0x" ++ r) /\
       exists p, s = p ++ r).
Proof.
  intros H; destruct (H 0 0%nat) as (s & r & Hs & Hr & p & Hp).
  vm_compute in Hs, Hr; injection Hs as <-; injection Hr as <-.
  change [48; 120] with ([48] ++ [120]) in Hp.
  apply app_inj_tail in Hp as [_ Hp]; discriminate.
Qed.

(** C3 (amended): when [v <> 0] or [n >= 1], [to_hex_string_fixed v n]
    ends with the digits of [to_hex_string v] stripped of ["0x"]. *)
Theorem to_hex_string_fixed_suffix v n :
  v <> 0 \/ (1 <= n)%nat ->
  exists s r,
    to_hex_string_fixed v n = Some s /\
    to_hex_string v = Some (bytes "0x" ++ r) /\
    exists p, s = p ++ r.
Proof.
  intros Hvn.
  destruct (to_hex_string_spec v) as [r [Hr [Hf [Hp [Hz Hnz]]]]].
  destruct (N.eq_dec v 0) as [H0|H0].
  - rewrite H0 in *; destruct Hvn as [Hv|Hn]; [contradiction|].
    exists (fmt_0x (repeat (byte "0") n)), r; split; [reflexivity|].
    split; [exact Hr|].
    rewrite (Hz eq_refl).
    exists (bytes "0x" ++ repeat (byte "0") (n - 1)).
    unfold fmt_0x; rewrite <- app_assoc; f_equal.
    replace n with (n - 1 + 1)%nat at 1 by lia.
    rewrite repeat_app; reflexivity.
  - destruct (Hnz H0) as [HL _].
    exists (fmt_0x (repeat (byte "0") (n - List.length r) ++ r)), r.
    split; [apply to_hex_string_fixed_nonzero; assumption|].
    split; [exact Hr|].
    exists (bytes "0x" ++ repeat (byte "0") (n - List.length r)).
    unfold fmt_0x; rewrite app_assoc; reflexivity.
Qed.

Lemma to_hex_string_fixed_suffix_witness :
  (0 <> 0 \/ (1 <= 1)%nat) /\
  exists s r,
    to_hex_string_fixed 0 1 = Some s /\
    to_hex_string 0 = Some (bytes "0x" ++ r) /\
    exists p, s = p ++ r.
Proof.
  split; [right; lia|].
  apply (to_hex_string_fixed_suffix 0 1); right; lia.
Defined.

(** C4: [to_hex_string_fixed 0 n] is ["0x"] followed by exactly [n] ['0']
    characters; in particular [(0, 0)] gives ["0x"] and [(0, 8)] gives
    ["0x00000000"]. *)
Theorem to_hex_string_fixed_zero_padding n :
  to_hex_string_fixed 0 n = Some (bytes "0x" ++ repeat (byte "0") n) /\
  to_hex_string_fixed 0 0 = Some (bytes "0x") /\
  to_hex_string_fixed 0 8 = Some (bytes "0x00000000").
Proof. split; [|split]; reflexivity. Qed.

(** C5: for [v <> 0] whose minimal hex numeral [r] has at least [n]
    digits, [to_hex_string_fixed v n] is ["0x"] followed by [r], neither
    padded nor truncated. *)
Theorem to_hex_string_fixed_no_truncation v n r :
  v <> 0 ->
  to_hex_string v = Some (bytes "0x" ++ r) ->
  (n <= List.length r)%nat ->
  to_hex_string_fixed v n = Some (bytes "0x" ++ r).
Proof.
  intros Hv Hr Hn.
  destruct (to_hex_string_spec v) as [S [HS [Hf [_ [_ Hnz]]]]].
  rewrite Hr in HS; injection HS as HS; subst S.
  destruct (Hnz Hv) as [HL _].
  rewrite (to_hex_string_fixed_nonzero v n r Hv HL Hf).
  replace (n - List.length r)%nat with 0%nat by lia; reflexivity.
Qed.

(** [0x12345 = 74565]: [to_hex_string_fixed(0x12345, 2) = "0x12345"]. *)
Lemma to_hex_string_fixed_no_truncation_witness :
  74565 <> 0 /\
  to_hex_string 74565 = Some (bytes "0x" ++ bytes "12345") /\
  (2 <= List.length (bytes "12345"))%nat /\
  to_hex_string_fixed 74565 2 = Some (bytes "0x" ++ bytes "12345").
Proof.
  split; [lia|]. split; [vm_compute; reflexivity|]. split; [simpl; lia|].
  apply (to_hex_string_fixed_no_truncation 74565 2 (bytes "12345")).
  - lia.
  - vm_compute; reflexivity.
  - simpl; lia.
Defined.

(** C6: [to_hex_string_fixed v n] has at least [n] characters after its
    two-character ["0x"] prefix. *)
Theorem to_hex_string_fixed_min_digits v n :
  exists s, to_hex_string_fixed v n = Some s /\
    (2 <= List.length s)%nat /\ (n <= List.length s - 2)%nat.
Proof.
  destruct (N.eq_dec v 0) as [->|Hv].
  - exists (fmt_0x (repeat (byte "0") n)); split; [reflexivity|].
    unfold fmt_0x; rewrite length_app, repeat_length; simpl; lia.
  - destruct (to_hex_string_spec v) as [S [_ [Hf [_ [_ Hnz]]]]].
    destruct (Hnz Hv) as [HL _].
    eexists; split; [apply (to_hex_string_fixed_nonzero v n S Hv HL Hf)|].
    unfold fmt_0x; rewrite !length_app, repeat_length; simpl; lia.
Qed.

(** C7: for [v1 < v2] whose decimal (resp. hexadecimal) strings have the
    same length, the string of [v1] is lexicographically smaller. *)
Theorem string_order_monotone v1 v2 :
  v1 < v2 ->
  (forall s1 s2, to_string v1 = Some s1 -> to_string v2 = Some s2 ->
     List.length s1 = List.length s2 -> lex_lt s1 s2) /\
  (forall h1 h2, to_hex_string v1 = Some h1 -> to_hex_string v2 = Some h2 ->
     List.length h1 = List.length h2 -> lex_lt h1 h2).
Proof.
  intros Hlt; split.
  - intros s1 s2 H1 H2 Hlen.
    destruct (to_string_spec v1) as [S1 [HS1 [Hf1 [Hp1 _]]]].
    destruct (to_string_spec v2) as [S2 [HS2 [Hf2 [Hp2 _]]]].
    rewrite H1 in HS1; rewrite H2 in HS2.
    injection HS1 as <-; injection HS2 as <-.
    apply (parse_base_lex 10 dec_val is_dec_char);
      auto using dec_val_lt, dec_val_mono, dec_val_inj; try lia.
    unfold parse_dec in *; lia.
  - intros h1 h2 H1 H2 Hlen.
    destruct (to_hex_string_spec v1) as [S1 [HS1 [Hf1 [Hp1 _]]]].
    destruct (to_hex_string_spec v2) as [S2 [HS2 [Hf2 [Hp2 _]]]].
    rewrite H1 in HS1; rewrite H2 in HS2.
    injection HS1 as ->; injection HS2 as ->.
    unfold fmt_0x in *; apply lex_lt_app_l.
    rewrite !length_app in Hlen.
    apply (parse_base_lex 16 hex_val is_hex_char);
      auto using hex_val_lt, hex_val_mono, hex_val_inj; try lia.
    unfold parse_hex in *; lia.
Qed.

Lemma string_order_monotone_witness :
  5 < 7 /\
  (forall s1 s2, to_string 5 = Some s1 -> to_string 7 = Some s2 ->
     List.length s1 = List.length s2 -> lex_lt s1 s2) /\
  (forall h1 h2, to_hex_string 5 = Some h1 -> to_hex_string 7 = Some h2 ->
     List.length h1 = List.length h2 -> lex_lt h1 h2).
Proof. split; [lia|apply (string_order_monotone 5 7); lia]. Defined.

(** C8: every byte the digit loops push is one of ["0123456789abcdef"],
    so [String::from_utf8(..).expect(..)] on the reversed buffer never
    panics; [to_hex_string] and [to_hex_string_fixed] run the same loop. *)
Theorem digit_buffers_valid_utf8 v :
  (exists L, to_string_loop v [] = Some L /\
     Forall (fun b => In b (bytes "0123456789abcdef")) L /\
     from_utf8_expect (rev L) = Some (rev L)) /\
  (exists L, hex_loop v [] = Some L /\
     Forall (fun b => In b (bytes "0123456789abcdef")) L /\
     from_utf8_expect (rev L) = Some (rev L)).
Proof.
  destruct (to_string_loop_spec v []) as [S [HS [Hf _]]].
  destruct (hex_loop_spec v []) as [H [HH [Hh _]]].
  apply forall_dec_hex in Hf.
  split; [exists (rev S)|exists (rev H)]; simpl in *.
  - split; [exact HS|]; rewrite rev_involutive; split; [|apply from_utf8_hex; exact Hf].
    apply Forall_rev; eapply Forall_impl; [|exact Hf].
    intros c Hc; apply is_hex_char_In; exact Hc.
  - split; [exact HH|]; rewrite rev_involutive; split; [|apply from_utf8_hex; exact Hh].
    apply Forall_rev; eapply Forall_impl; [|exact Hh].
    intros c Hc; apply is_hex_char_In; exact Hc.
Qed.

(** C9: the three operations terminate (their loops are defined by
    well-founded recursion on the bit length of [v], which each division by
    10 or 16 decreases) and never panic, for every value and every
    [minDigits]. *)
Theorem operations_total v n :
  (exists s, to_string v = Some s) /\
  (exists s, to_hex_string v = Some s) /\
  (exists s, to_hex_string_fixed v n = Some s).
Proof.
  destruct (to_string_spec v) as [s [Hs _]].
  destruct (to_hex_string_spec v) as [h [Hh _]].
  destruct (to_hex_string_fixed_min_digits v n) as [f [Hf _]].
  split; [eauto|split; eauto].
Qed.

(** C10: with [h] the minimal hex numeral of [v], the output of
    [to_hex_string_fixed v n] has length [2 + max n |h|] when [v <> 0] and
    [2 + n] when [v = 0]; for [v <> 0], [to_hex_string_fixed v 0] equals
    [to_hex_string v]. *)
Theorem to_hex_string_fixed_length v n :
  exists s h,
    to_hex_string v = Some (bytes "0x" ++ h) /\
    to_hex_string_fixed v n = Some s /\
    (v <> 0 -> List.length s = (2 + Nat.max n (List.length h))%nat) /\
    (v = 0 -> List.length s = (2 + n)%nat) /\
    (v <> 0 -> to_hex_string_fixed v 0 = to_hex_string v).
Proof.
  destruct (to_hex_string_spec v) as [h [Hh [Hf [_ [_ Hnz]]]]].
  destruct (N.eq_dec v 0) as [H0|H0].
  - subst v; exists (fmt_0x (repeat (byte "0") n)), h.
    split; [exact Hh|]; split; [reflexivity|].
    split; [intros; contradiction|]; split; [|intros; contradiction].
    intros _; unfold fmt_0x; rewrite length_app, repeat_length; reflexivity.
  - destruct (Hnz H0) as [HL _].
    exists (fmt_0x (repeat (byte "0") (n - List.length h) ++ h)), h.
    split; [exact Hh|].
    split; [apply to_hex_string_fixed_nonzero; assumption|].
    split; [|split; [intros; contradiction|]].
    + intros _; unfold fmt_0x; rewrite !length_app, repeat_length; simpl; lia.
    + intros _; rewrite Hh, (to_hex_string_fixed_nonzero v 0 h H0 HL Hf).
      reflexivity.
Qed.

(** * Scenarios of the specification *)

Example to_string_examples :
  to_string 0 = Some (bytes "0") /\ to_string 12345 = Some (bytes "12345").
Proof. split; vm_compute; reflexivity. Qed.

Example to_hex_string_examples :
  to_hex_string 0 = Some (bytes "0x0") /\
  to_hex_string 255 = Some (bytes "0xff") /\
  to_hex_string 256 = Some (bytes "0x100").
Proof. repeat split; vm_compute; reflexivity. Qed.

Example to_hex_string_fixed_examples :
  to_hex_string_fixed 255 4 = Some (bytes "0x00ff") /\
  to_hex_string_fixed 1 0 = Some (bytes "0x1").
Proof. split; vm_compute; reflexivity. Qed.

Example u256_max_examples :
  to_hex_string (2 ^ 256 - 1) = Some (bytes "0x" ++ repeat (byte "f") 64) /\
  to_hex_string_fixed (2 ^ 256 - 1) 64 = to_hex_string (2 ^ 256 - 1) /\
  to_hex_string_fixed (2 ^ 256 - 1) 32 = to_hex_string (2 ^ 256 - 1).
Proof. repeat split; vm_compute; reflexivity. Qed.


(** * Further properties of the library and of the demo contract *)

(** ** Helper lemmas *)

Lemma parse_base_zeros base val z k S :
  val z = 0 -> parse_base base val (repeat z k ++ S) = parse_base base val S.
Proof.
  intros Hz; unfold parse_base; rewrite fold_left_app; f_equal.
  induction k as [|k IH]; [reflexivity|].
  simpl; rewrite Hz, ?N.mul_0_l, ?N.add_0_l.
  exact IH.
Qed.

Lemma parse_base_lower base val c t :
  0 < base -> 1 <= val c ->
  base ^ N.of_nat (List.length t) <= parse_base base val (c :: t).
Proof. intros Hb Hc; rewrite parse_base_cons by exact Hb; nia. Qed.

Lemma dec_val_pos c : is_dec_char c = true -> c <> byte "0" -> 1 <= dec_val c.
Proof. intros H Hc; char_arith. Qed.

Lemma hex_val_pos c : is_hex_char c = true -> c <> byte "0" -> 1 <= hex_val c.
Proof. intros H Hc; char_arith. Qed.

(** Digit count of [to_string v]: [|s|] digits with [10^(|s|-1) <= v < 10^|s|]. *)
Lemma to_string_length_bounds v :
  exists s, to_string v = Some s /\ Forall (fun c => is_dec_char c = true) s /\
    parse_dec s = v /\ (1 <= List.length s)%nat /\
    v < 10 ^ N.of_nat (List.length s) /\
    (v = 0 -> List.length s = 1%nat) /\
    (v <> 0 -> 10 ^ N.of_nat (List.length s - 1) <= v).
Proof.
  destruct (to_string_spec v) as [s [Hs [Hf [Hp [Hz Hnz]]]]].
  exists s; split; [exact Hs|]; split; [exact Hf|]; split; [exact Hp|].
  assert (Hb : v < 10 ^ N.of_nat (List.length s)).
  { rewrite <- Hp; apply (parse_base_bound 10 dec_val is_dec_char);
      auto using dec_val_lt; lia. }
  destruct (N.eq_dec v 0) as [H0|H0].
  - rewrite (Hz H0); simpl; repeat split; try lia; try (intros; contradiction).
  - destruct (Hnz H0) as [c [t [-> Hc]]].
    assert (Hc' : is_dec_char c = true) by (inversion Hf; assumption).
    split; [simpl; lia|]; split; [exact Hb|]; split; [intros; contradiction|].
    intros _; replace (List.length (c :: t) - 1)%nat with (List.length t) by (simpl; lia).
    rewrite <- Hp.
    apply parse_base_lower; [lia|apply dec_val_pos; assumption].
Qed.

(** Digit count of [to_hex_string v = "0x" ++ h]. *)
Lemma to_hex_string_length_bounds v :
  exists h, to_hex_string v = Some (bytes "0x" ++ h) /\
    Forall (fun c => is_hex_char c = true) h /\
    parse_hex h = v /\ (1 <= List.length h)%nat /\
    v < 16 ^ N.of_nat (List.length h) /\
    (v = 0 -> List.length h = 1%nat) /\
    (v <> 0 -> 16 ^ N.of_nat (List.length h - 1) <= v) /\
    (v <> 0 -> hex_loop v [] = Some (rev h)).
Proof.
  destruct (to_hex_string_spec v) as [h [Hs [Hf [Hp [Hz Hnz]]]]].
  exists h; split; [exact Hs|]; split; [exact Hf|]; split; [exact Hp|].
  assert (Hb : v < 16 ^ N.of_nat (List.length h)).
  { rewrite <- Hp; apply (parse_base_bound 16 hex_val is_hex_char);
      auto using hex_val_lt; lia. }
  destruct (N.eq_dec v 0) as [H0|H0].
  - rewrite (Hz H0); simpl; repeat split; try lia; try (intros; contradiction).
  - destruct (Hnz H0) as [HL [c [t [-> Hc]]]].
    assert (Hc' : is_hex_char c = true) by (inversion Hf; assumption).
    split; [simpl; lia|]; split; [exact Hb|]; split; [intros; contradiction|].
    split; [|intros; exact HL].
    intros _; replace (List.length (c :: t) - 1)%nat with (List.length t) by (simpl; lia).
    rewrite <- Hp.
    apply parse_base_lower; [lia|apply hex_val_pos; assumption].
Qed.

(** Digits of [to_hex_string_fixed v n] after ["0x"]: a hex numeral of [v]
    with at least [n] digits, exactly [n] when [v] fits in [n] digits. *)
Lemma to_hex_string_fixed_digits v n :
  exists D, to_hex_string_fixed v n = Some (fmt_0x D) /\
    Forall (fun c => is_hex_char c = true) D /\ parse_hex D = v /\
    (n <= List.length D)%nat /\
    (v < 16 ^ N.of_nat n -> List.length D = n).
Proof.
  assert (Hz0 : forall k, Forall (fun c => is_hex_char c = true) (repeat (byte "0") k)).
  { intros k; apply Forall_forall; intros x Hx; apply repeat_spec in Hx; subst; reflexivity. }
  destruct (N.eq_dec v 0) as [->|Hv].
  - exists (repeat (byte "0") n); split; [reflexivity|]; split; [apply Hz0|].
    rewrite repeat_length; split; [|split; lia].
    unfold parse_hex; rewrite <- (app_nil_r (repeat _ _)).
    rewrite parse_base_zeros; reflexivity.
  - destruct (to_hex_string_length_bounds v) as
      [h [_ [Hf [Hp [H1 [Hb [_ [Hlow HL]]]]]]]].
    specialize (Hlow Hv); specialize (HL Hv).
    exists (repeat (byte "0") (n - List.length h) ++ h).
    split; [apply to_hex_string_fixed_nonzero; assumption|].
    split; [apply Forall_app; split; [apply Hz0|assumption]|].
    split; [unfold parse_hex; rewrite parse_base_zeros; [exact Hp|reflexivity]|].
    rewrite length_app, repeat_length; split; [lia|].
    intros Hn.
    assert (N.of_nat (List.length h - 1) < N.of_nat n).
    { apply (N.pow_lt_mono_r_iff 16); lia. }
    lia.
Qed.

Lemma strip_prefix_app p s : strip_prefix p (p ++ s) = Some s.
Proof. induction p as [|a p IH]; simpl; [reflexivity|]; rewrite N.eqb_refl; exact IH. Qed.

Lemma split_first_app sep a b :
  Forall (fun c => c <> sep) a -> split_first sep (a ++ sep :: b) = (a, sep :: b).
Proof.
  induction 1 as [|c a Hc _ IH]; simpl; [rewrite N.eqb_refl; reflexivity|].
  destruct (N.eqb_spec c sep); [contradiction|]; rewrite IH; reflexivity.
Qed.

Lemma split_on_app sep a b :
  Forall (fun c => c <> sep) a -> split_on sep (a ++ [sep] ++ b) = a :: split_on sep b.
Proof.
  induction 1 as [|c a Hc _ IH]; simpl in *; [rewrite N.eqb_refl; reflexivity|].
  destruct (N.eqb_spec c sep); [contradiction|]; rewrite IH; reflexivity.
Qed.

Lemma split_on_none sep a :
  Forall (fun c => c <> sep) a -> split_on sep a = [a].
Proof.
  induction 1 as [|c a Hc _ IH]; simpl; [reflexivity|].
  destruct (N.eqb_spec c sep); [contradiction|]; rewrite IH; reflexivity.
Qed.

Lemma avoids_forallb sep a :
  forallb (fun c => negb (c =? sep)) a = true -> Forall (fun c => c <> sep) a.
Proof.
  intros H; apply Forall_forall; intros x Hx Heq; subst.
  rewrite forallb_forall in H; specialize (H sep Hx).
  rewrite N.eqb_refl in H; discriminate.
Qed.

Lemma hex_chars_avoid sep a :
  (sep < 48 \/ 102 < sep) ->
  Forall (fun c => is_hex_char c = true) a -> Forall (fun c => c <> sep) a.
Proof.
  intros Hs; apply Forall_impl; intros c Hc Heq; subst; char_arith.
Qed.

(** ** Properties *)

(** [to_string v] has as many characters as [v] has decimal digits: one for
    [0], otherwise [L] with [10^(L-1) <= v < 10^L]. *)
Theorem to_string_digit_count v :
  exists s, to_string v = Some s /\
    (v = 0 -> List.length s = 1%nat) /\
    (v <> 0 -> 10 ^ N.of_nat (List.length s - 1) <= v /\
               v < 10 ^ N.of_nat (List.length s)).
Proof.
  destruct (to_string_length_bounds v) as [s [Hs [_ [_ [_ [Hb [Hz Hl]]]]]]].
  exists s; split; [exact Hs|]; split; [exact Hz|].
  intros Hv; split; [apply Hl; exact Hv|exact Hb].
Qed.

(** [to_hex_string v] is ["0x"] and as many characters as [v] has
    hexadecimal digits: one for [0], otherwise [L] with
    [16^(L-1) <= v < 16^L]. *)
Theorem to_hex_string_digit_count v :
  exists h, to_hex_string v = Some (bytes "0x" ++ h) /\
    (v = 0 -> List.length h = 1%nat) /\
    (v <> 0 -> 16 ^ N.of_nat (List.length h - 1) <= v /\
               v < 16 ^ N.of_nat (List.length h)).
Proof.
  destruct (to_hex_string_length_bounds v) as
    [h [Hs [_ [_ [_ [Hb [Hz [Hl _]]]]]]]].
  exists h; split; [exact Hs|]; split; [exact Hz|].
  intros Hv; split; [apply Hl; exact Hv|exact Hb].
Qed.

(** A larger value never has a shorter decimal or hexadecimal string. *)
Theorem string_length_monotone v1 v2 :
  v1 <= v2 ->
  exists s1 s2 h1 h2,
    to_string v1 = Some s1 /\ to_string v2 = Some s2 /\
    to_hex_string v1 = Some h1 /\ to_hex_string v2 = Some h2 /\
    (List.length s1 <= List.length s2)%nat /\
    (List.length h1 <= List.length h2)%nat.
Proof.
  intros Hle.
  destruct (to_string_length_bounds v1) as [s1 [Hs1 [_ [_ [L1 [B1 [Z1 W1]]]]]]].
  destruct (to_string_length_bounds v2) as [s2 [Hs2 [_ [_ [L2 [B2 [Z2 W2]]]]]]].
  destruct (to_hex_string_length_bounds v1) as [h1 [Hh1 [_ [_ [M1 [C1 [Y1 [V1 _]]]]]]]].
  destruct (to_hex_string_length_bounds v2) as [h2 [Hh2 [_ [_ [M2 [C2 [Y2 [V2 _]]]]]]]].
  exists s1, s2, (bytes "0x" ++ h1), (bytes "0x" ++ h2).
  do 4 (split; [assumption|]).
  rewrite !length_app.
  destruct (N.eq_dec v1 0) as [H0|H0].
  - rewrite (Z1 H0), (Y1 H0); simpl; lia.
  - specialize (W1 H0); specialize (V1 H0).
    split.
    + destruct (Nat.le_gt_cases (List.length s1) (List.length s2)) as [|Hgt]; [assumption|].
      exfalso.
      assert (10 ^ N.of_nat (List.length s2) <= 10 ^ N.of_nat (List.length s1 - 1))
        by (apply N.pow_le_mono_r; lia).
      lia.
    + destruct (Nat.le_gt_cases (List.length h1) (List.length h2)) as [|Hgt]; [simpl; lia|].
      exfalso.
      assert (16 ^ N.of_nat (List.length h2) <= 16 ^ N.of_nat (List.length h1 - 1))
        by (apply N.pow_le_mono_r; lia).
      lia.
Qed.

Lemma string_length_monotone_witness :
  99 <= 100 /\
  exists s1 s2 h1 h2,
    to_string 99 = Some s1 /\ to_string 100 = Some s2 /\
    to_hex_string 99 = Some h1 /\ to_hex_string 100 = Some h2 /\
    (List.length s1 <= List.length s2)%nat /\
    (List.length h1 <= List.length h2)%nat.
Proof. split; [lia|apply (string_length_monotone 99 100); lia]. Defined.

(** The digits of [to_hex_string_fixed v n] after ["0x"], leading zeros
    included, are lowercase hex digits that read back to [v]. *)
Theorem to_hex_string_fixed_roundtrip v n :
  exists D, to_hex_string_fixed v n = Some (bytes "0x" ++ D) /\
    Forall (fun c => In c (bytes "0123456789abcdef")) D /\ parse_hex D = v.
Proof.
  destruct (to_hex_string_fixed_digits v n) as [D [HD [Hf [Hp _]]]].
  exists D; split; [exact HD|]; split; [|exact Hp].
  eapply Forall_impl; [|exact Hf]; intros c Hc; apply is_hex_char_In; exact Hc.
Qed.

(** Two values that both fit in [n] hex digits get fixed-width strings of
    the same length, ordered lexicographically as the values are. *)
Theorem to_hex_string_fixed_order v1 v2 n :
  v1 < v2 -> v2 < 16 ^ N.of_nat n ->
  exists s1 s2, to_hex_string_fixed v1 n = Some s1 /\
    to_hex_string_fixed v2 n = Some s2 /\
    List.length s1 = List.length s2 /\ lex_lt s1 s2.
Proof.
  intros Hlt Hfit.
  destruct (to_hex_string_fixed_digits v1 n) as [D1 [H1 [F1 [P1 [_ L1]]]]].
  destruct (to_hex_string_fixed_digits v2 n) as [D2 [H2 [F2 [P2 [_ L2]]]]].
  specialize (L1 ltac:(lia)); specialize (L2 Hfit).
  exists (fmt_0x D1), (fmt_0x D2); split; [exact H1|]; split; [exact H2|].
  unfold fmt_0x; rewrite !length_app, L1, L2; split; [reflexivity|].
  apply lex_lt_app_l.
  apply (parse_base_lex 16 hex_val is_hex_char);
    auto using hex_val_lt, hex_val_mono, hex_val_inj; try lia.
  unfold parse_hex in *; lia.
Qed.

Lemma to_hex_string_fixed_order_witness :
  255 < 256 /\ 256 < 16 ^ N.of_nat 4 /\
  exists s1 s2, to_hex_string_fixed 255 4 = Some s1 /\
    to_hex_string_fixed 256 4 = Some s2 /\
    List.length s1 = List.length s2 /\ lex_lt s1 s2.
Proof.
  split; [lia|]; split; [vm_compute; reflexivity|].
  apply (to_hex_string_fixed_order 255 256 4); [lia|vm_compute; reflexivity].
Defined.

(** Distinct values give distinct strings, for each of the three
    operations (the fixed-width one at any given [n]). *)
Theorem strings_injective v1 v2 n :
  (to_string v1 = to_string v2 -> v1 = v2) /\
  (to_hex_string v1 = to_hex_string v2 -> v1 = v2) /\
  (to_hex_string_fixed v1 n = to_hex_string_fixed v2 n -> v1 = v2).
Proof.
  destruct (to_string_spec v1) as [s1 [Hs1 [_ [Hp1 _]]]].
  destruct (to_string_spec v2) as [s2 [Hs2 [_ [Hp2 _]]]].
  destruct (to_hex_string_spec v1) as [h1 [Hh1 [_ [Hq1 _]]]].
  destruct (to_hex_string_spec v2) as [h2 [Hh2 [_ [Hq2 _]]]].
  destruct (to_hex_string_fixed_digits v1 n) as [D1 [HD1 [_ [HP1 _]]]].
  destruct (to_hex_string_fixed_digits v2 n) as [D2 [HD2 [_ [HP2 _]]]].
  split; [|split].
  - rewrite Hs1, Hs2; intros E; injection E as <-; congruence.
  - rewrite Hh1, Hh2; intros E; injection E as E; congruence.
  - rewrite HD1, HD2; intros E; injection E as E; congruence.
Qed.

(** The token URI of [generate_token_uri] reads back unambiguously: the
    segment after ["https://api.example.com/token/"] up to the next ['/'] is
    a decimal numeral of the token id, and what follows
    ["/metadata?hex=0x"] is a hex numeral of the same id. *)
Theorem generate_token_uri_roundtrip token_id :
  exists uri, generate_token_uri token_id = Some uri /\
    read_token_uri uri = Some (token_id, token_id).
Proof.
  destruct (to_string_length_bounds token_id) as [d [Hd [Fd [Pd [L1 _]]]]].
  destruct (to_hex_string_fixed_digits token_id 8) as [D [HD [FD [PD _]]]].
  eexists; split; [unfold generate_token_uri; rewrite Hd, HD; reflexivity|].
  unfold read_token_uri; rewrite strip_prefix_app.
  replace (bytes "/metadata?hex=" ++ fmt_0x D)
    with (byte "/" :: bytes "metadata?hex=0x" ++ D) by reflexivity.
  rewrite split_first_app
    by (apply hex_chars_avoid; [left; reflexivity|apply forall_dec_hex; exact Fd]).
  cbv beta iota zeta.
  replace (byte "/" :: bytes "metadata?hex=0x" ++ D)
    with (bytes "/metadata?hex=0x" ++ D) by reflexivity.
  rewrite strip_prefix_app.
  assert (Ed : forallb is_dec_char d = true)
    by (apply forallb_forall; intros x Hx; eapply Forall_forall in Fd; eauto).
  assert (ED : forallb is_hex_char D = true)
    by (apply forallb_forall; intros x Hx; eapply Forall_forall in FD; eauto).
  assert (El : (List.length d =? 0)%nat = false) by (apply Nat.eqb_neq; lia).
  rewrite Ed, ED, El, Pd, PD; reflexivity.
Qed.

(** [multi_format_display v] has exactly five lines: the header, then the
    decimal, hex, 8-digit and 16-digit hex forms of [v], each behind its
    label, each reading back to [v]. *)
Theorem multi_format_display_lines v :
  exists disp d h h8 h16, multi_format_display v = Some disp /\
    split_on newline disp =
      [bytes "Value representations:";
       bytes "Decimal: " ++ d;
       bytes "Hex: 0x" ++ h;
       bytes "Hex (8 chars): 0x" ++ h8;
       bytes "Hex (16 chars): 0x" ++ h16] /\
    Forall (fun c => is_dec_char c = true) d /\ parse_dec d = v /\
    Forall (fun c => is_hex_char c = true) (h ++ h8 ++ h16) /\
    parse_hex h = v /\ parse_hex h8 = v /\ parse_hex h16 = v /\
    (8 <= List.length h8)%nat /\ (16 <= List.length h16)%nat.
Proof.
  destruct (to_string_length_bounds v) as [d [Hd [Fd [Pd _]]]].
  destruct (to_hex_string_spec v) as [h [Hh [Fh [Ph _]]]].
  destruct (to_hex_string_fixed_digits v 8) as [D8 [H8 [F8 [P8 [L8 _]]]]].
  destruct (to_hex_string_fixed_digits v 16) as [D16 [H16 [F16 [P16 [L16 _]]]]].
  assert (Av : forall a, Forall (fun c => is_hex_char c = true) a ->
                 Forall (fun c => c <> newline) a)
    by (intros a; apply hex_chars_avoid; left; reflexivity).
  eexists; exists d, h, D8, D16.
  split; [unfold multi_format_display; rewrite Hd, Hh, H8, H16; reflexivity|].
  split.
  - rewrite split_on_app by (apply avoids_forallb; reflexivity).
    rewrite (app_assoc (bytes "Decimal: ") d).
    rewrite split_on_app by (apply Forall_app; split;
      [apply avoids_forallb; reflexivity|apply Av, forall_dec_hex, Fd]).
    unfold fmt_0x.
    rewrite (app_assoc (bytes "Hex: ") (bytes "0x" ++ h)), split_on_app
      by (apply Forall_app; split; [apply avoids_forallb; reflexivity|];
          apply Forall_app; split; [apply avoids_forallb; reflexivity|apply Av, Fh]).
    rewrite (app_assoc (bytes "Hex (8 chars): ") (bytes "0x" ++ D8)), split_on_app
      by (apply Forall_app; split; [apply avoids_forallb; reflexivity|];
          apply Forall_app; split; [apply avoids_forallb; reflexivity|apply Av, F8]).
    rewrite split_on_none
      by (apply Forall_app; split; [apply avoids_forallb; reflexivity|];
          apply Forall_app; split; [apply avoids_forallb; reflexivity|apply Av, F16]).
    rewrite !app_assoc; reflexivity.
  - split; [exact Fd|]; split; [exact Pd|].
    split; [apply Forall_app; split; [exact Fh|apply Forall_app; split; assumption]|].
    repeat split; assumption.
Qed.

(** * Scenarios of the demo contract's tests *)

Example contract_examples :
  generate_token_uri 42 =
    Some (bytes "https://api.example.com/token/42/metadata?hex=0x0000002a") /\
  generate_token_uri 0 =
    Some (bytes "https://api.example.com/token/0/metadata?hex=0x00000000") /\
  to_hex_string_fixed 12345 8 = Some (bytes "0x00003039").
Proof. repeat split; vm_compute; reflexivity. Qed.
